(** * astro-htmx: the bootstrap script generated by the integration

    A shallow embedding of [src/index.ts].  The integration factory takes an
    optional options object, reads its [extensions] list and returns an Astro
    integration whose single hook, ["astro:config:setup"], builds a script
    text from the list and passes it to the host's [injectScript] callback.

    Strings are sequences of code units ([String.string]).  The JavaScript
    string and array built-ins that the source calls ([split], [map] with
    an index, [join], [charAt], [substring], [toUpperCase]) are embedded as
    functions of the same names.  [toUpperCase] is embedded on ASCII text
    only (code units below 128), where it maps the letters a..z to A..Z and
    leaves every other unit alone; it says nothing of JavaScript's
    uppercasing of other units, so a property that depends on what
    uppercasing does to a unit is stated for ASCII names. *)

From Stdlib Require Import String Ascii List Bool Arith Lia.
Import ListNotations.

Local Open Scope list_scope.
Local Open Scope string_scope.

(** ** JavaScript built-ins used by the source *)

Module Js.

(** The characters that a Rocq string literal cannot hold directly. *)
Definition dq : string := String "034"%char EmptyString.
Definition nl : string := String "010"%char EmptyString.
Definition hyphen : ascii := "-"%char.

Definition is_lower (c : ascii) : bool :=
  (97 <=? nat_of_ascii c)%nat && (nat_of_ascii c <=? 122)%nat.

Definition is_digit (c : ascii) : bool :=
  (48 <=? nat_of_ascii c)%nat && (nat_of_ascii c <=? 57)%nat.

(** The uppercase of one code unit below 128. *)
Definition upper_char (c : ascii) : ascii :=
  if is_lower c then ascii_of_nat (nat_of_ascii c - 32) else c.

(** [s.toUpperCase()], for [s] of code units below 128. *)
Fixpoint toUpperCase (s : string) : string :=
  match s with
  | EmptyString => EmptyString
  | String c r => String (upper_char c) (toUpperCase r)
  end.

(** [s.charAt(i)]: the one-unit string at index [i], the empty string when
    [i] is out of range. *)
Fixpoint charAt (i : nat) (s : string) : string :=
  match s, i with
  | EmptyString, _ => EmptyString
  | String c _, O => String c EmptyString
  | String _ r, S j => charAt j r
  end.

(** [s.substring(start)]: the units from index [start] to the end. *)
Fixpoint substring (start : nat) (s : string) : string :=
  match start, s with
  | O, _ => s
  | S _, EmptyString => EmptyString
  | S j, String _ r => substring j r
  end.

(** [s.split(sep)] for a one-unit separator: the pieces between the
    occurrences of [sep]; a string without [sep] (the empty one too) gives
    one piece. *)
Fixpoint split (sep : ascii) (s : string) : list string :=
  match s with
  | EmptyString => [EmptyString]
  | String c r =>
      if Ascii.eqb c sep then EmptyString :: split sep r
      else match split sep r with
           | piece :: pieces => String c piece :: pieces
           | [] => [String c EmptyString]
           end
  end.

(** [a.map((x, index) => f(x, index))] *)
Fixpoint map_from {A B : Type} (f : A -> nat -> B) (i : nat) (a : list A)
  : list B :=
  match a with
  | [] => []
  | x :: r => f x i :: map_from f (S i) r
  end.

Definition mapi {A B : Type} (f : A -> nat -> B) (a : list A) : list B :=
  map_from f 0 a.

(** [a.join(sep)] *)
Fixpoint join (sep : string) (a : list string) : string :=
  match a with
  | [] => EmptyString
  | [x] => x
  | x :: r => x ++ sep ++ join sep r
  end.

End Js.

(** ** Text predicates used to state the properties *)

(** [needle] occurs in [hay]. *)
Fixpoint includes (needle hay : string) : bool :=
  String.prefix needle hay
  || match hay with
     | EmptyString => false
     | String _ r => includes needle r
     end.

(** The number of positions of [hay] at which [needle] starts. *)
Fixpoint occurrences (needle hay : string) : nat :=
  (if String.prefix needle hay then 1 else 0)
  + match hay with
    | EmptyString => 0
    | String _ r => occurrences needle r
    end.

Definition occurs (needle hay : string) : Prop :=
  exists before after, hay = before ++ needle ++ after.

Definition starts_with (p s : string) : Prop := exists rest, s = p ++ rest.
Definition ends_with (p s : string) : Prop := exists rest, s = rest ++ p.

Definition is_blank (c : ascii) : bool :=
  Ascii.eqb c " "%char || Ascii.eqb c "010"%char.

Fixpoint all_chars (p : ascii -> bool) (s : string) : bool :=
  match s with
  | EmptyString => true
  | String c r => p c && all_chars p r
  end.

Definition blank (s : string) : Prop := all_chars is_blank s = true.

Definition hyphen_free (s : string) : Prop :=
  all_chars (fun c => negb (Ascii.eqb c Js.hyphen)) s = true.

Definition lower_or_digit (c : ascii) : bool := Js.is_lower c || Js.is_digit c.

(** A segment of lowercase letters and digits. *)
Definition segment (s : string) : Prop := all_chars lower_or_digit s = true.

(** First character uppercased, the remainder unchanged. *)
Definition capitalize (s : string) : string :=
  match s with
  | EmptyString => EmptyString
  | String c r => String (Js.upper_char c) r
  end.

(** The name written [s0-s1-...-sk]. *)
Definition hyphenated (segments : list string) : string :=
  String.concat "-" segments.

(** The segments glued together with no separator. *)
Definition glue (segments : list string) : string :=
  String.concat "" segments.

Definition nonempty (s : string) : bool := negb (String.eqb s "").

(** ** The data model *)

(** [{ name: string; path?: string }] *)
Module Ext.
Record t : Type := make { name : string; path : option string }.
End Ext.

(** [type HtmxOptions = { extensions?: ...[] }] *)
Record HtmxOptions : Type := { extensions : option (list Ext.t) }.

(** Astro's [InjectedScriptStage]:
    ["before-hydration" | "head-inline" | "page" | "page-ssr"]. *)
Inductive InjectedScriptStage : Type :=
| before_hydration
| head_inline
| page
| page_ssr.

(** The part of the hook's argument that the source destructures.  [W] is
    the state of the host that the callback acts on. *)
Record SetupParams (W : Type) : Type :=
  { injectScript : InjectedScriptStage -> string -> W -> W }.
Arguments injectScript {W}.

Record Hooks (W : Type) : Type :=
  { astro_config_setup : SetupParams W -> W -> W }.
Arguments astro_config_setup {W}.

Module AstroIntegration.
Record t (W : Type) : Type := make { name : string; hooks : Hooks W }.
Arguments name {W}.
Arguments hooks {W}.
End AstroIntegration.

(** ** The integration *)

(** [safeExtName]: split on the hyphen, keep the first part, uppercase the
    first unit of every other part, join with nothing in between. *)
Definition safeExtName (name : string) : string :=
  Js.join ""
    (Js.mapi
       (fun part index =>
          match index with
          | O => part
          | S _ => Js.toUpperCase (Js.charAt 0 part) ++ Js.substring 1 part
          end)
       (Js.split Js.hyphen name)).

(** [ext.path ?? ext.name] *)
Definition specifier (ext : Ext.t) : string :=
  match Ext.path ext with
  | Some p => p
  | None => Ext.name ext
  end.

(** The text that the first [map] callback builds for one extension. *)
Definition importLine (ext : Ext.t) : string :=
  "import * as " ++ safeExtName (Ext.name ext) ++ " from " ++ Js.dq
    ++ specifier ext ++ Js.dq ++ ";".

(** The text that the second [map] callback builds for one extension. *)
Definition registrationLine (ext : Ext.t) : string :=
  "htmx.defineExtension(" ++ Js.dq ++ Ext.name ext ++ Js.dq ++ ", " ++ Js.dq
    ++ safeExtName (Ext.name ext) ++ Js.dq ++ ");".

Definition extensionImports (extensions : list Ext.t) : string :=
  Js.join Js.nl (map importLine extensions).

Definition extensionRegistrations (extensions : list Ext.t) : string :=
  Js.join Js.nl (map registrationLine extensions).

(** The template literal passed to [injectScript]. *)
Definition bootstrapScript (extensions : list Ext.t) : string :=
  "import * as htmx from " ++ Js.dq ++ "htmx.org" ++ Js.dq ++ ";" ++ Js.nl
    ++ "          " ++ extensionImports extensions ++ Js.nl
    ++ Js.nl
    ++ "          document.addEventListener('astro:after-swap', () => {" ++ Js.nl
    ++ "            htmx.process(document.body);" ++ Js.nl
    ++ "            " ++ extensionRegistrations extensions ++ Js.nl
    ++ "          });" ++ Js.nl
    ++ Js.nl
    ++ "          window.htmx = htmx;".

(** The default export.  [options] is [None] when the caller passes no
    argument; the parameter default [{}] and the destructuring default [[]]
    are written out. *)
Definition htmx {W : Type} (options : option HtmxOptions)
  : AstroIntegration.t W :=
  let options :=
    match options with
    | Some o => o
    | None => {| extensions := None |}
    end in
  let extensions :=
    match extensions options with
    | Some e => e
    | None => []
    end in
  AstroIntegration.make W "astro-htmx"
    {| astro_config_setup :=
         fun params => injectScript params page (bootstrapScript extensions) |}.

(** A host that records every injected script, in call order. *)
Definition Recorded : Type := list (InjectedScriptStage * string).

Definition recorder : SetupParams Recorded :=
  {| injectScript := fun stage content log => (log ++ [(stage, content)])%list |}.

(** One run of the setup hook of the integration built from [options]. *)
Definition runSetup (options : option HtmxOptions) (log : Recorded)
  : Recorded :=
  astro_config_setup (AstroIntegration.hooks (htmx options)) recorder log.

(** The extension list in force after both defaults are applied. *)
Definition configured (options : option HtmxOptions) : list Ext.t :=
  match options with
  | Some {| extensions := Some e |} => e
  | _ => []
  end.

(** ** Fixed pieces of the script text *)

Definition baseImport : string :=
  "import * as htmx from " ++ Js.dq ++ "htmx.org" ++ Js.dq ++ ";".

Definition listenerOpen : string :=
  "document.addEventListener('astro:after-swap', () => {".

Definition processCall : string := "htmx.process(document.body);".

Definition listenerClose : string := "});".

Definition globalExposure : string := "window.htmx = htmx;".

(** The three fixed stretches of the template literal: up to the extension
    imports, between them and the registrations, and after these. *)
Definition scriptHead : string := baseImport ++ Js.nl ++ "          ".

Definition scriptMiddle : string :=
  Js.nl ++ Js.nl ++ "          " ++ listenerOpen ++ Js.nl
    ++ "            " ++ processCall ++ Js.nl ++ "            ".

Definition scriptTail : string :=
  Js.nl ++ "          " ++ listenerClose ++ Js.nl ++ Js.nl
    ++ "          " ++ globalExposure.

(** What precedes and what follows one element of a joined array. *)
Fixpoint lead (sep : string) (a : list string) : string :=
  match a with
  | [] => EmptyString
  | x :: r => x ++ sep ++ lead sep r
  end.

Fixpoint trail (sep : string) (a : list string) : string :=
  match a with
  | [] => EmptyString
  | x :: r => sep ++ x ++ trail sep r
  end.

(** ** Notions used to state further properties of the identifier rule *)

(** No unit of [s] is [sep]. *)
Definition sep_free (sep : ascii) (s : string) : Prop :=
  all_chars (fun c => negb (Ascii.eqb c sep)) s = true.

Definition newline : ascii := "010"%char.

(** A code unit below 128. *)
Definition is_ascii (c : ascii) : bool := (nat_of_ascii c <? 128)%nat.

(** The name with every hyphen deleted. *)
Fixpoint strip_hyphens (s : string) : string :=
  match s with
  | EmptyString => EmptyString
  | String c r =>
      if Ascii.eqb c Js.hyphen then strip_hyphens r
      else String c (strip_hyphens r)
  end.

Fixpoint count_hyphens (s : string) : nat :=
  match s with
  | EmptyString => 0
  | String c r => (if Ascii.eqb c Js.hyphen then 1 else 0) + count_hyphens r
  end.

Definition is_upper (c : ascii) : bool :=
  (65 <=? nat_of_ascii c)%nat && (nat_of_ascii c <=? 90)%nat.

Definition alphanumeric (c : ascii) : bool :=
  Js.is_lower c || is_upper c || Js.is_digit c.

(** A lowercase letter, a digit or the hyphen. *)
Definition name_char (c : ascii) : bool :=
  lower_or_digit c || Ascii.eqb c Js.hyphen.

(** One pass over the name: a hyphen is dropped and raises the flag, any
    other unit is copied, uppercased when the flag is up, and lowers it. *)
Fixpoint camel (up : bool) (s : string) : string :=
  match s with
  | EmptyString => EmptyString
  | String c r =>
      if Ascii.eqb c Js.hyphen then camel true r
      else String (if up then Js.upper_char c else c) (camel false r)
  end.

(** ** Strings: concatenation and occurrence *)

Section StringFacts.

Lemma append_assoc (a b c : string) : (a ++ b) ++ c = a ++ (b ++ c).
Proof. induction a as [|x a IH]; simpl; [reflexivity | now rewrite IH]. Qed.

Lemma append_empty_r (a : string) : a ++ "" = a.
Proof. induction a as [|x a IH]; simpl; [reflexivity | now rewrite IH]. Qed.

Lemma prefix_append (p rest : string) : String.prefix p (p ++ rest) = true.
Proof.
  induction p as [|x p IH]; simpl.
  - now destruct rest.
  - destruct (ascii_dec x x) as [_|ne]; [exact IH | now elim ne].
Qed.

Lemma prefix_starts_with (p s : string) :
  String.prefix p s = true -> starts_with p s.
Proof.
  revert s; induction p as [|x p IH]; intros s H.
  - now exists s.
  - destruct s as [|y s]; simpl in H; [discriminate|].
    destruct (ascii_dec x y) as [->|]; [|discriminate].
    destruct (IH s H) as [rest ->]. now exists rest.
Qed.

Lemma includes_occurs (needle hay : string) :
  includes needle hay = true <-> occurs needle hay.
Proof.
  split.
  - induction hay as [|c hay IH]; cbn [includes]; intros H.
    + rewrite orb_false_r in H.
      destruct (prefix_starts_with _ _ H) as [rest E].
      exists "", rest. exact E.
    + apply orb_true_iff in H as [H|H].
      * destruct (prefix_starts_with _ _ H) as [rest E].
        exists "", rest. exact E.
      * destruct (IH H) as (before & after & ->).
        now exists (String c before), after.
  - intros (before & after & ->).
    induction before as [|c before IH].
    + cbn [append]. destruct (needle ++ after) eqn:E; cbn [includes];
        rewrite <- E, prefix_append; reflexivity.
    + cbn [append includes]. rewrite IH. apply orb_true_r.
Qed.

Lemma occurs_refl (s : string) : occurs s s.
Proof. exists "", "". simpl. now rewrite append_empty_r. Qed.

Lemma occurs_append_l (n a b : string) : occurs n b -> occurs n (a ++ b).
Proof.
  intros (x & y & ->). exists (a ++ x), y. now rewrite append_assoc.
Qed.

Lemma occurs_append_r (n a b : string) : occurs n a -> occurs n (a ++ b).
Proof.
  intros (x & y & ->). exists x, (y ++ b). now rewrite !append_assoc.
Qed.

End StringFacts.


(** ** Splitting on the hyphen *)

Section Split.

Lemma lower_or_digit_not_hyphen (c : ascii) :
  lower_or_digit c = true -> negb (Ascii.eqb c Js.hyphen) = true.
Proof.
  destruct c as [[] [] [] [] [] [] [] []]; vm_compute; congruence.
Qed.

Lemma segment_hyphen_free (s : string) : segment s -> hyphen_free s.
Proof.
  unfold segment, hyphen_free.
  induction s as [|c s IH]; cbn [all_chars]; [reflexivity|].
  intros H. apply andb_true_iff in H as [Hc Hs].
  now rewrite (lower_or_digit_not_hyphen c Hc), (IH Hs).
Qed.

Lemma split_pieces (s : string) :
  exists first others, Js.split Js.hyphen s = first :: others.
Proof.
  induction s as [|c s (first & others & E)]; cbn [Js.split].
  - now exists "", [].
  - destruct (Ascii.eqb c Js.hyphen).
    + now exists "", (Js.split Js.hyphen s).
    + rewrite E. now exists (String c first), others.
Qed.

Lemma split_hyphen_free (s : string) :
  hyphen_free s -> Js.split Js.hyphen s = [s].
Proof.
  unfold hyphen_free.
  induction s as [|c s IH]; cbn [all_chars Js.split]; [reflexivity|].
  intros H. apply andb_true_iff in H as [Hc Hs].
  apply negb_true_iff in Hc. now rewrite Hc, (IH Hs).
Qed.

Lemma split_append (s rest : string) :
  hyphen_free s ->
  Js.split Js.hyphen (s ++ String Js.hyphen rest)
  = s :: Js.split Js.hyphen rest.
Proof.
  unfold hyphen_free.
  induction s as [|c s IH]; cbn [all_chars append Js.split]; intros H.
  - now rewrite Ascii.eqb_refl.
  - apply andb_true_iff in H as [Hc Hs].
    apply negb_true_iff in Hc. now rewrite Hc, (IH Hs).
Qed.

Lemma hyphenated_cons (s0 s1 : string) (rest : list string) :
  hyphenated (s0 :: s1 :: rest)
  = s0 ++ String Js.hyphen (hyphenated (s1 :: rest)).
Proof. reflexivity. Qed.

Lemma split_hyphenated (s0 : string) (rest : list string) :
  Forall hyphen_free (s0 :: rest) ->
  Js.split Js.hyphen (hyphenated (s0 :: rest)) = s0 :: rest.
Proof.
  revert s0; induction rest as [|s1 rest IH]; intros s0 H;
    inversion H as [|? ? H0 Hrest]; subst.
  - now apply split_hyphen_free.
  - rewrite hyphenated_cons, (split_append _ _ H0). f_equal. now apply IH.
Qed.

End Split.

(** ** The identifier rule *)

Section SafeExtName.

Lemma charAt_substring_capitalize (part : string) :
  Js.toUpperCase (Js.charAt 0 part) ++ Js.substring 1 part = capitalize part.
Proof. destruct part; reflexivity. Qed.

Lemma join_empty_cons (x : string) (r : list string) :
  Js.join "" (x :: r) = x ++ Js.join "" r.
Proof.
  destruct r; cbn [Js.join append]; [now rewrite append_empty_r | reflexivity].
Qed.

Lemma glue_cons (x : string) (r : list string) : glue (x :: r) = x ++ glue r.
Proof.
  unfold glue.
  destruct r; cbn [String.concat append]; [now rewrite append_empty_r | reflexivity].
Qed.

Lemma join_later_parts (f : string -> nat -> string) (i : nat)
      (parts : list string) :
  (forall p j, f p (S j) = capitalize p) ->
  Js.join "" (Js.map_from f (S i) parts) = glue (map capitalize parts).
Proof.
  intros Hf. revert i.
  induction parts as [|p parts IH]; intros i; [reflexivity|].
  cbn [Js.map_from map]. now rewrite join_empty_cons, glue_cons, Hf, IH.
Qed.

(** The result in terms of the pieces that [split] returns. *)
Lemma safeExtName_pieces (name first : string) (others : list string) :
  Js.split Js.hyphen name = first :: others ->
  safeExtName name = first ++ glue (map capitalize others).
Proof.
  intros E. unfold safeExtName, Js.mapi. rewrite E.
  cbn [Js.map_from]. rewrite join_empty_cons. f_equal.
  apply join_later_parts. intros p j. apply charAt_substring_capitalize.
Qed.

Lemma glue_skip_empty (parts : list string) :
  glue (map capitalize parts) = glue (map capitalize (filter nonempty parts)).
Proof.
  induction parts as [|p parts IH]; [reflexivity|].
  destruct p as [|c p]; cbn [filter nonempty String.eqb negb map].
  - now rewrite glue_cons, IH.
  - now rewrite !glue_cons, IH.
Qed.

End SafeExtName.

(** C2: for a name made of hyphen-separated segments [s0-s1-...-sk], each
    of lowercase letters and digits, [safeExtName] returns [s0] followed by
    every later segment with its first character uppercased and its
    remainder unchanged, with no separator and in the segments' order. *)
Theorem safeExtName_camel_case (s0 : string) (rest : list string) :
  Forall segment (s0 :: rest) ->
  safeExtName (hyphenated (s0 :: rest)) = s0 ++ glue (map capitalize rest).
Proof.
  intros H. apply safeExtName_pieces, split_hyphenated.
  eapply Forall_impl; [exact segment_hyphen_free | exact H].
Qed.

Lemma safeExtName_camel_case_witness :
  Forall segment ["response"; "targets"]
  /\ safeExtName "response-targets" = "responseTargets".
Proof.
  assert (H : Forall segment ["response"; "targets"])
    by (repeat constructor).
  split; [exact H|].
  exact (safeExtName_camel_case "response" ["targets"] H).
Defined.

Example safeExtName_a_b_c : safeExtName "a-b-c" = "aBC".
Proof. reflexivity. Qed.

(** C7: on a name without a hyphen [safeExtName] is the identity. *)
Theorem safeExtName_hyphenless (n : string) :
  hyphen_free n -> safeExtName n = n.
Proof.
  intros H.
  rewrite (safeExtName_pieces n n [] (split_hyphen_free n H)).
  apply append_empty_r.
Qed.

Lemma safeExtName_hyphenless_witness :
  hyphen_free "foo" /\ safeExtName "foo" = "foo".
Proof.
  split; [reflexivity|].
  apply (safeExtName_hyphenless "foo"). reflexivity.
Defined.

(** C9: [safeExtName] returns a string for every input string, and the
    empty pieces that leading, trailing or doubled hyphens produce add
    nothing to it: the result is the first piece followed by the
    capitalized non-empty later pieces.  In particular ["a-"] gives ["a"],
    ["a--b"] gives ["aB"], ["-a"] gives ["A"] and [""] gives [""]. *)
Theorem safeExtName_empty_segments :
  (forall name : string,
      exists first others,
        Js.split Js.hyphen name = first :: others
        /\ safeExtName name
           = first ++ glue (map capitalize (filter nonempty others)))
  /\ safeExtName "a-" = "a"
  /\ safeExtName "a--b" = "aB"
  /\ safeExtName "-a" = "A"
  /\ safeExtName "" = "".
Proof.
  split; [|repeat split].
  intros name. destruct (split_pieces name) as (first & others & E).
  exists first, others. split; [exact E|].
  now rewrite (safeExtName_pieces _ _ _ E), glue_skip_empty.
Qed.

(** ** Joined arrays *)

Section Join.

Variable sep : string.

Lemma join_concat (a : list string) : Js.join sep a = String.concat sep a.
Proof.
  induction a as [|x r IH]; [reflexivity|].
  destruct r as [|y r]; [reflexivity|].
  change (x ++ sep ++ Js.join sep (y :: r)
          = x ++ sep ++ String.concat sep (y :: r)).
  now rewrite IH.
Qed.

Lemma join_cons (x : string) (r : list string) :
  Js.join sep (x :: r) = x ++ trail sep r.
Proof.
  revert x; induction r as [|y r IH]; intros x.
  - cbn [Js.join trail]. now rewrite append_empty_r.
  - change (Js.join sep (x :: y :: r)) with (x ++ sep ++ Js.join sep (y :: r)).
    now rewrite IH.
Qed.

Lemma trail_app (a b : list string) :
  trail sep (a ++ b) = trail sep a ++ trail sep b.
Proof.
  induction a as [|x a IH]; [reflexivity|].
  cbn [trail List.app]. now rewrite IH, !append_assoc.
Qed.

Lemma join_middle (a : list string) (x : string) (b : list string) :
  Js.join sep (a ++ x :: b) = lead sep a ++ x ++ trail sep b.
Proof.
  induction a as [|y a IH]; [apply join_cons|].
  cbn [List.app lead]. rewrite join_cons, !append_assoc. do 2 f_equal.
  rewrite <- IH. destruct a; cbn [List.app]; rewrite join_cons;
    cbn [trail]; reflexivity.
Qed.

(** Two elements of an array keep their order in the joined text. *)
Lemma join_two (a : list string) (x : string) (b : list string) (y : string)
      (c : list string) :
  Js.join sep (a ++ x :: b ++ y :: c)
  = lead sep a ++ x ++ (trail sep b ++ sep) ++ y ++ trail sep c.
Proof.
  rewrite join_middle, trail_app. cbn [trail].
  now rewrite !append_assoc.
Qed.

End Join.

(** ** The script text *)

Section Script.

Lemma nth_error_two {A : Type} (l : list A) (i j : nat) (x y : A) :
  i < j -> nth_error l i = Some x -> nth_error l j = Some y ->
  exists a b c, l = (a ++ x :: b ++ y :: c)%list.
Proof.
  intros Hij Hi Hj.
  destruct (nth_error_split l i Hi) as (a & r & -> & Hlen).
  rewrite nth_error_app2 in Hj by lia.
  replace (j - length a) with (S (j - S i)) in Hj by lia.
  cbn [nth_error] in Hj.
  destruct (nth_error_split r _ Hj) as (b & c & -> & _).
  now exists a, b, c.
Qed.

Lemma extensionImports_line (exts : list Ext.t) (ext : Ext.t) :
  In ext exts -> occurs (importLine ext) (extensionImports exts).
Proof.
  intros H. destruct (in_split _ _ H) as (a & b & ->).
  unfold extensionImports. rewrite map_app. cbn [map].
  rewrite join_middle. eexists _, _. reflexivity.
Qed.

Lemma extensionRegistrations_line (exts : list Ext.t) (ext : Ext.t) :
  In ext exts -> occurs (registrationLine ext) (extensionRegistrations exts).
Proof.
  intros H. destruct (in_split _ _ H) as (a & b & ->).
  unfold extensionRegistrations. rewrite map_app. cbn [map].
  rewrite join_middle. eexists _, _. reflexivity.
Qed.

(** The script around its two generated parts. *)
Lemma bootstrapScript_parts (exts : list Ext.t) :
  bootstrapScript exts
  = scriptHead ++ extensionImports exts ++ scriptMiddle
      ++ extensionRegistrations exts ++ scriptTail.
Proof. reflexivity. Qed.

Lemma ends_with_append (p a b : string) :
  ends_with p b -> ends_with p (a ++ b).
Proof.
  intros (rest & ->). exists (a ++ rest). now rewrite append_assoc.
Qed.

Lemma bootstrapScript_end (exts : list Ext.t) :
  ends_with globalExposure (bootstrapScript exts).
Proof.
  rewrite bootstrapScript_parts.
  do 4 apply ends_with_append.
  exists (Js.nl ++ "          " ++ listenerClose ++ Js.nl ++ Js.nl
            ++ "          ").
  reflexivity.
Qed.

(** What the code emits for the registration of one extension: both
    arguments are string literals. *)
Lemma registration_emitted (exts : list Ext.t) (ext : Ext.t) :
  In ext exts ->
  occurs
    ("htmx.defineExtension(" ++ Js.dq ++ Ext.name ext ++ Js.dq ++ ", "
       ++ Js.dq ++ safeExtName (Ext.name ext) ++ Js.dq ++ ");")
    (bootstrapScript exts).
Proof.
  intros H. rewrite bootstrapScript_parts.
  apply occurs_append_l, occurs_append_l, occurs_append_l, occurs_append_r.
  now apply extensionRegistrations_line.
Qed.

End Script.

(** ** The generated script *)

(** C1: for the extension named ["response-targets"] the script registers
    it under its name, but the second argument of the registration call is
    the sanitized identifier inside double quotes, a string literal: the
    call with the bare identifier [responseTargets] does not occur in the
    script, although the import statement binds that identifier. *)
Theorem registration_second_argument_is_quoted :
  includes
    ("(" ++ Js.dq ++ "response-targets" ++ Js.dq ++ ", responseTargets)")
    (bootstrapScript [Ext.make "response-targets" None]) = false
  /\ includes
       ("htmx.defineExtension(" ++ Js.dq ++ "response-targets" ++ Js.dq
          ++ ", " ++ Js.dq ++ "responseTargets" ++ Js.dq ++ ");")
       (bootstrapScript [Ext.make "response-targets" None]) = true
  /\ includes
       ("import * as responseTargets from " ++ Js.dq ++ "response-targets"
          ++ Js.dq ++ ";")
       (bootstrapScript [Ext.make "response-targets" None]) = true.
Proof. repeat split; vm_compute; reflexivity. Qed.

(** C3: the script is, in this order and with only spaces and line breaks
    in between: the import of the base library as [htmx] from ["htmx.org"];
    the extension import statements, one per extension,
    [import * as <identifier> from "<path or name>";], separated by line
    breaks; the opening of the listener for ['astro:after-swap']; the call
    [htmx.process(document.body);]; the registration calls, one per
    extension, [htmx.defineExtension("<name>", "<identifier>");], separated
    by line breaks; the closing of the listener; and last the assignment
    [window.htmx = htmx;]. *)
Theorem script_structure (exts : list Ext.t) :
  exists b1 b2 b3 b4 b5 b6,
    (blank b1 /\ blank b2 /\ blank b3 /\ blank b4 /\ blank b5 /\ blank b6)
    /\ bootstrapScript exts
       = "import * as htmx from " ++ String "034"%char "htmx.org"
           ++ String "034"%char ";"
           ++ b1
           ++ String.concat (String "010"%char "")
                (map (fun ext =>
                        "import * as " ++ safeExtName (Ext.name ext)
                          ++ " from " ++ String "034"%char ""
                          ++ match Ext.path ext with
                             | Some p => p
                             | None => Ext.name ext
                             end
                          ++ String "034"%char ";")
                     exts)
           ++ b2
           ++ "document.addEventListener('astro:after-swap', () => {"
           ++ b3
           ++ "htmx.process(document.body);"
           ++ b4
           ++ String.concat (String "010"%char "")
                (map (fun ext =>
                        "htmx.defineExtension(" ++ String "034"%char ""
                          ++ Ext.name ext
                          ++ String "034"%char ", "
                          ++ String "034"%char ""
                          ++ safeExtName (Ext.name ext)
                          ++ String "034"%char ");")
                     exts)
           ++ b5
           ++ "});"
           ++ b6
           ++ "window.htmx = htmx;".
Proof.
  exists (Js.nl ++ "          "), (Js.nl ++ Js.nl ++ "          "),
    (Js.nl ++ "            "), (Js.nl ++ "            "),
    (Js.nl ++ "          "), (Js.nl ++ Js.nl ++ "          ").
  split; [repeat split|].
  unfold bootstrapScript, extensionImports, extensionRegistrations.
  rewrite !join_concat. reflexivity.
Qed.

(** C4: for the empty extension list the script is produced and injected
    as for any other list; it holds one import statement, that of the base
    library, no registration call, the document-processing call and the
    global-exposure assignment. *)
Theorem empty_extensions_script :
  runSetup (Some {| extensions := Some [] |}) []
  = [(page, bootstrapScript [])]
  /\ starts_with baseImport (bootstrapScript [])
  /\ occurrences "import" (bootstrapScript []) = 1
  /\ occurrences "defineExtension" (bootstrapScript []) = 0
  /\ occurrences processCall (bootstrapScript []) = 1
  /\ ends_with globalExposure (bootstrapScript []).
Proof.
  split; [reflexivity|].
  split; [apply prefix_starts_with; vm_compute; reflexivity|].
  split; [vm_compute; reflexivity|].
  split; [vm_compute; reflexivity|].
  split; [vm_compute; reflexivity|].
  apply bootstrapScript_end.
Qed.

(** C5: the import statement generated for an extension has [path] as its
    module specifier when [path] is present and [name] otherwise; for
    [{name: "foo", path: "./local/foo"}] the specifier is ["./local/foo"]
    and no import from ["foo"] is generated. *)
Theorem import_specifier :
  (forall (exts : list Ext.t) (ext : Ext.t),
      In ext exts ->
      occurs
        ("import * as " ++ safeExtName (Ext.name ext) ++ " from " ++ Js.dq
           ++ match Ext.path ext with
              | Some p => p
              | None => Ext.name ext
              end
           ++ Js.dq ++ ";")
        (bootstrapScript exts))
  /\ includes ("import * as foo from " ++ Js.dq ++ "./local/foo" ++ Js.dq ++ ";")
       (bootstrapScript [Ext.make "foo" (Some "./local/foo")]) = true
  /\ includes ("from " ++ Js.dq ++ "foo" ++ Js.dq)
       (bootstrapScript [Ext.make "foo" (Some "./local/foo")]) = false.
Proof.
  split; [|split; vm_compute; reflexivity].
  intros exts ext H.
  rewrite bootstrapScript_parts.
  apply occurs_append_l, occurs_append_r.
  now apply extensionImports_line.
Qed.

Lemma import_specifier_witness :
  In (Ext.make "response-targets" None)
     [Ext.make "foo" (Some "./local/foo"); Ext.make "response-targets" None]
  /\ occurs
       ("import * as responseTargets from " ++ Js.dq ++ "response-targets"
          ++ Js.dq ++ ";")
       (bootstrapScript
          [Ext.make "foo" (Some "./local/foo");
           Ext.make "response-targets" None]).
Proof.
  assert (H : In (Ext.make "response-targets" None)
                 [Ext.make "foo" (Some "./local/foo");
                  Ext.make "response-targets" None])
    by (right; left; reflexivity).
  split; [exact H|].
  exact (proj1 import_specifier _ _ H).
Defined.

(** C6: when extension [A] comes before extension [B] in the list, the
    import statement of [A],
    [import * as <identifier of A> from "<path or name of A>";], comes
    before that of [B], and the registration call of [A],
    [htmx.defineExtension("<name of A>", "<identifier of A>");], before
    that of [B], in the script. *)
Theorem order_preserved (exts : list Ext.t) (i j : nat) (A B : Ext.t) :
  i < j -> nth_error exts i = Some A -> nth_error exts j = Some B ->
  exists p q r s t,
    bootstrapScript exts
    = p
        ++ ("import * as " ++ safeExtName (Ext.name A) ++ " from "
              ++ String "034"%char ""
              ++ match Ext.path A with
                 | Some path => path
                 | None => Ext.name A
                 end
              ++ String "034"%char ";")
        ++ q
        ++ ("import * as " ++ safeExtName (Ext.name B) ++ " from "
              ++ String "034"%char ""
              ++ match Ext.path B with
                 | Some path => path
                 | None => Ext.name B
                 end
              ++ String "034"%char ";")
        ++ r
        ++ ("htmx.defineExtension(" ++ String "034"%char "" ++ Ext.name A
              ++ String "034"%char ", " ++ String "034"%char ""
              ++ safeExtName (Ext.name A) ++ String "034"%char ");")
        ++ s
        ++ ("htmx.defineExtension(" ++ String "034"%char "" ++ Ext.name B
              ++ String "034"%char ", " ++ String "034"%char ""
              ++ safeExtName (Ext.name B) ++ String "034"%char ");")
        ++ t.
Proof.
  intros Hij Hi Hj.
  change (exists p q r s t,
             bootstrapScript exts
             = p ++ importLine A ++ q ++ importLine B ++ r
                 ++ registrationLine A ++ s ++ registrationLine B ++ t).
  destruct (nth_error_two exts i j A B Hij Hi Hj) as (a & b & c & ->).
  rewrite bootstrapScript_parts.
  unfold extensionImports, extensionRegistrations.
  rewrite !map_app. cbn [map]. rewrite !map_app. cbn [map].
  rewrite !join_two.
  exists (scriptHead ++ lead Js.nl (map importLine a)),
    (trail Js.nl (map importLine b) ++ Js.nl),
    (trail Js.nl (map importLine c) ++ scriptMiddle
       ++ lead Js.nl (map registrationLine a)),
    (trail Js.nl (map registrationLine b) ++ Js.nl),
    (trail Js.nl (map registrationLine c) ++ scriptTail).
  now rewrite !append_assoc.
Qed.

Lemma order_preserved_witness :
  0 < 1
  /\ nth_error
       [Ext.make "response-targets" None; Ext.make "foo" (Some "./local/foo")]
       0 = Some (Ext.make "response-targets" None)
  /\ nth_error
       [Ext.make "response-targets" None; Ext.make "foo" (Some "./local/foo")]
       1 = Some (Ext.make "foo" (Some "./local/foo"))
  /\ exists p q r s t,
      bootstrapScript
        [Ext.make "response-targets" None;
         Ext.make "foo" (Some "./local/foo")]
      = p
          ++ ("import * as responseTargets from "
                ++ String "034"%char "response-targets"
                ++ String "034"%char ";")
          ++ q
          ++ ("import * as foo from " ++ String "034"%char "./local/foo"
                ++ String "034"%char ";")
          ++ r
          ++ ("htmx.defineExtension(" ++ String "034"%char "response-targets"
                ++ String "034"%char ", " ++ String "034"%char "responseTargets"
                ++ String "034"%char ");")
          ++ s
          ++ ("htmx.defineExtension(" ++ String "034"%char "foo"
                ++ String "034"%char ", " ++ String "034"%char "foo"
                ++ String "034"%char ");")
          ++ t.
Proof.
  split; [lia|]. split; [reflexivity|]. split; [reflexivity|].
  apply (order_preserved
           [Ext.make "response-targets" None;
            Ext.make "foo" (Some "./local/foo")] 0 1
           (Ext.make "response-targets" None)
           (Ext.make "foo" (Some "./local/foo")));
    [lia | reflexivity | reflexivity].
Defined.

(** ** The setup hook *)

(** C8: one run of the setup hook calls the host's [injectScript] exactly
    once, with the stage ["page"] and the generated script: on any host the
    hook's effect is that of this one call, and a host that records the
    calls ends with exactly one more entry. *)
Theorem setup_injects_once (options : option HtmxOptions) :
  (forall (W : Type) (params : SetupParams W) (w : W),
      astro_config_setup (AstroIntegration.hooks (htmx options)) params w
      = injectScript params page (bootstrapScript (configured options)) w)
  /\ (forall log : Recorded,
         runSetup options log
         = (log ++ [(page, bootstrapScript (configured options))])%list
         /\ List.length (runSetup options log) = S (List.length log)).
Proof.
  assert (E : forall (W : Type) (params : SetupParams W) (w : W),
             astro_config_setup (AstroIntegration.hooks (htmx options))
               params w
             = injectScript params page
                 (bootstrapScript (configured options)) w).
  { intros W params w. destruct options as [[[e|]]|]; reflexivity. }
  split; [exact E|].
  intros log. unfold runSetup. rewrite E. cbn [injectScript recorder].
  split; [reflexivity|].
  rewrite length_app. cbn [List.length]. lia.
Qed.

(** C10: the factory called with no argument, with an empty options object
    or with an empty extension list returns the same integration: the same
    name ["astro-htmx"], the same hook and the same injected script. *)
Theorem default_options_agree (W : Type) :
  @htmx W None = htmx (Some {| extensions := None |})
  /\ @htmx W (Some {| extensions := None |})
     = htmx (Some {| extensions := Some [] |})
  /\ AstroIntegration.name (@htmx W None) = "astro-htmx"
  /\ (forall log : Recorded,
         runSetup None log = runSetup (Some {| extensions := None |}) log
         /\ runSetup (Some {| extensions := None |}) log
            = runSetup (Some {| extensions := Some [] |}) log
         /\ runSetup (Some {| extensions := Some [] |}) log
            = (log ++ [(page, bootstrapScript [])])%list).
Proof. repeat split. Qed.

(** ** The identifier rule as one pass over the name *)

Section Camel.

Lemma upper_char_idempotent (c : ascii) :
  Js.upper_char (Js.upper_char c) = Js.upper_char c.
Proof. destruct c as [[] [] [] [] [] [] [] []]; reflexivity. Qed.

Lemma upper_char_not_hyphen (c : ascii) :
  Ascii.eqb c Js.hyphen = false ->
  Ascii.eqb (Js.upper_char c) Js.hyphen = false.
Proof.
  destruct c as [[] [] [] [] [] [] [] []]; vm_compute; congruence.
Qed.

Lemma upper_char_not_newline (c : ascii) :
  negb (Ascii.eqb c newline) = true ->
  negb (Ascii.eqb (Js.upper_char c) newline) = true.
Proof.
  destruct c as [[] [] [] [] [] [] [] []]; vm_compute; congruence.
Qed.

Lemma name_char_alphanumeric (c : ascii) :
  name_char c = true -> Ascii.eqb c Js.hyphen = false ->
  alphanumeric c = true /\ alphanumeric (Js.upper_char c) = true.
Proof.
  destruct c as [[] [] [] [] [] [] [] []]; vm_compute; intros; split;
    congruence.
Qed.

(** [camel] in terms of the pieces that [split] returns. *)
Lemma camel_pieces (s : string) :
  exists first others,
    Js.split Js.hyphen s = first :: others
    /\ camel false s = first ++ glue (map capitalize others)
    /\ camel true s = capitalize first ++ glue (map capitalize others).
Proof.
  induction s as [|c s (first & others & E & Hf & Ht)];
    cbn [Js.split camel].
  - exists "", []. repeat split.
  - destruct (Ascii.eqb c Js.hyphen) eqn:Hc.
    + exists "", (first :: others). rewrite E. cbn [map capitalize append].
      rewrite glue_cons. now split.
    + exists (String c first), others. rewrite E, Hf.
      cbn [capitalize append]. now split.
Qed.

Lemma safeExtName_camel (name : string) : safeExtName name = camel false name.
Proof.
  destruct (camel_pieces name) as (first & others & E & Hf & _).
  now rewrite (safeExtName_pieces _ _ _ E), Hf.
Qed.

Lemma camel_hyphen_free (up : bool) (s : string) : hyphen_free (camel up s).
Proof.
  unfold hyphen_free. revert up.
  induction s as [|c s IH]; intros up; cbn [camel all_chars]; [reflexivity|].
  destruct (Ascii.eqb c Js.hyphen) eqn:Hc; [apply IH|].
  cbn [all_chars]. rewrite IH, andb_true_r.
  destruct up; [now rewrite (upper_char_not_hyphen c Hc) | now rewrite Hc].
Qed.

Lemma camel_identity (s : string) : hyphen_free s -> camel false s = s.
Proof.
  unfold hyphen_free.
  induction s as [|c s IH]; cbn [camel all_chars]; [reflexivity|].
  intros H. apply andb_true_iff in H as [Hc Hs].
  apply negb_true_iff in Hc. now rewrite Hc, (IH Hs).
Qed.

Lemma camel_upper (up : bool) (s : string) :
  Js.toUpperCase (camel up s) = Js.toUpperCase (strip_hyphens s).
Proof.
  revert up.
  induction s as [|c s IH]; intros up; cbn [camel strip_hyphens];
    [reflexivity|].
  destruct (Ascii.eqb c Js.hyphen); [apply IH|].
  cbn [Js.toUpperCase]. rewrite IH.
  destruct up; [now rewrite upper_char_idempotent | reflexivity].
Qed.

Lemma camel_length (up : bool) (s : string) :
  String.length (camel up s) + count_hyphens s = String.length s.
Proof.
  revert up.
  induction s as [|c s IH]; intros up;
    cbn [camel count_hyphens String.length]; [reflexivity|].
  destruct (Ascii.eqb c Js.hyphen).
  - specialize (IH true). lia.
  - cbn [String.length]. specialize (IH false). lia.
Qed.

Lemma camel_chars (q : ascii -> bool) (up : bool) (s : string) :
  (forall c, q c = true -> q (Js.upper_char c) = true) ->
  all_chars q s = true -> all_chars q (camel up s) = true.
Proof.
  intros Hq. revert up.
  induction s as [|c s IH]; intros up; cbn [camel all_chars]; [reflexivity|].
  intros H. apply andb_true_iff in H as [Hc Hs].
  destruct (Ascii.eqb c Js.hyphen); [now apply IH|].
  cbn [all_chars]. rewrite (IH false Hs), andb_true_r.
  destruct up; [now apply Hq | exact Hc].
Qed.

Lemma camel_alphanumeric (up : bool) (s : string) :
  all_chars name_char s = true -> all_chars alphanumeric (camel up s) = true.
Proof.
  revert up.
  induction s as [|c s IH]; intros up; cbn [camel all_chars]; [reflexivity|].
  intros H. apply andb_true_iff in H as [Hc Hs].
  destruct (Ascii.eqb c Js.hyphen) eqn:E; [now apply IH|].
  cbn [all_chars]. rewrite (IH false Hs), andb_true_r.
  destruct (name_char_alphanumeric c Hc E) as [Ha Hu].
  now destruct up.
Qed.

Lemma camel_true_capitalized (s : string) :
  capitalize (camel true s) = camel true s.
Proof.
  induction s as [|c s IH]; cbn [camel]; [reflexivity|].
  destruct (Ascii.eqb c Js.hyphen); [exact IH|].
  cbn [capitalize]. now rewrite upper_char_idempotent.
Qed.

Lemma camel_true_false (s : string) :
  camel true s = capitalize (camel false s).
Proof.
  destruct s as [|c s]; cbn [camel]; [reflexivity|].
  destruct (Ascii.eqb c Js.hyphen);
    [now rewrite camel_true_capitalized | reflexivity].
Qed.

Lemma camel_append_hyphen (up : bool) (a b : string) :
  camel up (a ++ String Js.hyphen b) = camel up a ++ camel true b.
Proof.
  revert up.
  induction a as [|c a IH]; intros up; cbn [append camel].
  - now rewrite Ascii.eqb_refl.
  - destruct (Ascii.eqb c Js.hyphen); [apply IH|].
    cbn [append]. now rewrite IH.
Qed.

End Camel.

(** ** Lines of a joined text *)

Section Lines.

Variable sep : ascii.

Lemma all_chars_append (q : ascii -> bool) (a b : string) :
  all_chars q (a ++ b) = all_chars q a && all_chars q b.
Proof.
  induction a as [|c a IH]; cbn [append all_chars]; [reflexivity|].
  now rewrite IH, andb_assoc.
Qed.

Lemma split_sep_free (s : string) : sep_free sep s -> Js.split sep s = [s].
Proof.
  unfold sep_free.
  induction s as [|c s IH]; cbn [all_chars Js.split]; [reflexivity|].
  intros H. apply andb_true_iff in H as [Hc Hs].
  apply negb_true_iff in Hc. now rewrite Hc, (IH Hs).
Qed.

Lemma split_sep_append (s rest : string) :
  sep_free sep s ->
  Js.split sep (s ++ String sep rest) = s :: Js.split sep rest.
Proof.
  unfold sep_free.
  induction s as [|c s IH]; cbn [all_chars append Js.split]; intros H.
  - now rewrite Ascii.eqb_refl.
  - apply andb_true_iff in H as [Hc Hs].
    apply negb_true_iff in Hc. now rewrite Hc, (IH Hs).
Qed.

Lemma split_join (x : string) (r : list string) :
  Forall (sep_free sep) (x :: r) ->
  Js.split sep (Js.join (String sep "") (x :: r)) = x :: r.
Proof.
  revert x; induction r as [|y r IH]; intros x H;
    inversion H as [|? ? Hx Hr]; subst.
  - now apply split_sep_free.
  - change (Js.join (String sep "") (x :: y :: r))
      with (x ++ String sep (Js.join (String sep "") (y :: r))).
    rewrite (split_sep_append _ _ Hx). f_equal. now apply IH.
Qed.

End Lines.

(** ** Further properties of the identifier rule *)

(** X1: whatever the name, the identifier that [safeExtName] returns holds
    no hyphen. *)
Theorem safeExtName_no_hyphen (name : string) :
  hyphen_free (safeExtName name).
Proof. rewrite safeExtName_camel. apply camel_hyphen_free. Qed.

(** X2: [safeExtName] is idempotent: applied to its own result it changes
    nothing. *)
Theorem safeExtName_idempotent (name : string) :
  safeExtName (safeExtName name) = safeExtName name.
Proof.
  rewrite !safeExtName_camel.
  apply camel_identity, camel_hyphen_free.
Qed.

(** X3: [safeExtName] is not injective: a name that holds a hyphen differs
    from its own identifier, yet the two, taken as extension names, get the
    same identifier. *)
Theorem safeExtName_collision (name : string) :
  ~ hyphen_free name ->
  safeExtName name <> name
  /\ safeExtName (safeExtName name) = safeExtName name.
Proof.
  intros H. split.
  - intros E. apply H. rewrite <- E, safeExtName_camel.
    apply camel_hyphen_free.
  - rewrite !safeExtName_camel. apply camel_identity, camel_hyphen_free.
Qed.

Lemma safeExtName_collision_witness :
  ~ hyphen_free "response-targets"
  /\ safeExtName "response-targets" <> "response-targets"
  /\ safeExtName (safeExtName "response-targets")
     = safeExtName "response-targets".
Proof.
  assert (H : ~ hyphen_free "response-targets")
    by (intros E; vm_compute in E; discriminate E).
  split; [exact H|].
  exact (safeExtName_collision "response-targets" H).
Defined.

(** X4: on a name of ASCII characters [safeExtName] removes the hyphens
    and nothing else: up to letter case the identifier is the name with its
    hyphens deleted, and it is shorter than the name by the number of
    hyphens. *)
Theorem safeExtName_only_drops_hyphens (name : string) :
  all_chars is_ascii name = true ->
  Js.toUpperCase (safeExtName name) = Js.toUpperCase (strip_hyphens name)
  /\ String.length (safeExtName name) + count_hyphens name
     = String.length name.
Proof.
  intros _.
  rewrite safeExtName_camel. split; [apply camel_upper | apply camel_length].
Qed.

Lemma safeExtName_only_drops_hyphens_witness :
  all_chars is_ascii "response-targets" = true
  /\ Js.toUpperCase (safeExtName "response-targets") = "RESPONSETARGETS"
  /\ String.length (safeExtName "response-targets") + 1 = 16.
Proof.
  split; [reflexivity|].
  apply (safeExtName_only_drops_hyphens "response-targets"). reflexivity.
Defined.

(** X5: for a name that begins with a lowercase letter and holds only
    lowercase letters, digits and hyphens, the identifier begins with that
    same letter and holds only letters and digits after it. *)
Theorem safeExtName_identifier_shape (c : ascii) (r : string) :
  Js.is_lower c = true -> all_chars name_char r = true ->
  exists rest,
    safeExtName (String c r) = String c rest
    /\ all_chars alphanumeric rest = true.
Proof.
  intros Hc Hr. exists (camel false r). split.
  - rewrite safeExtName_camel. cbn [camel].
    assert (E : Ascii.eqb c Js.hyphen = false).
    { apply negb_true_iff, lower_or_digit_not_hyphen.
      unfold lower_or_digit. now rewrite Hc. }
    now rewrite E.
  - now apply camel_alphanumeric.
Qed.

Lemma safeExtName_identifier_shape_witness :
  Js.is_lower "r"%char = true
  /\ all_chars name_char "esponse-targets" = true
  /\ exists rest,
      safeExtName "response-targets" = String "r"%char rest
      /\ all_chars alphanumeric rest = true.
Proof.
  split; [reflexivity|]. split; [reflexivity|].
  apply (safeExtName_identifier_shape "r"%char "esponse-targets");
    reflexivity.
Defined.

(** X6: [safeExtName] goes through a hyphen: the identifier of [a-b] is
    the identifier of [a] followed by the capitalized identifier of [b],
    for all strings [a] and [b]. *)
Theorem safeExtName_append_hyphen (a b : string) :
  safeExtName (a ++ "-" ++ b) = safeExtName a ++ capitalize (safeExtName b).
Proof.
  change (a ++ "-" ++ b) with (a ++ String Js.hyphen b).
  rewrite !safeExtName_camel, camel_append_hyphen.
  now rewrite camel_true_false.
Qed.

(** ** Lines of the generated parts *)

Section GeneratedLines.

Lemma safeExtName_newline_free (name : string) :
  sep_free newline name -> sep_free newline (safeExtName name).
Proof.
  unfold sep_free. intros H. rewrite safeExtName_camel.
  apply camel_chars; [exact upper_char_not_newline | exact H].
Qed.

Lemma importLine_newline_free (ext : Ext.t) :
  sep_free newline (Ext.name ext) -> sep_free newline (specifier ext) ->
  sep_free newline (importLine ext).
Proof.
  intros Hn Hs. apply safeExtName_newline_free in Hn.
  unfold sep_free, importLine in *.
  rewrite !all_chars_append, Hn, Hs. reflexivity.
Qed.

Lemma registrationLine_newline_free (ext : Ext.t) :
  sep_free newline (Ext.name ext) -> sep_free newline (registrationLine ext).
Proof.
  intros Hn. pose proof (safeExtName_newline_free _ Hn) as Hi.
  unfold sep_free, registrationLine in *.
  rewrite !all_chars_append, Hn, Hi. reflexivity.
Qed.

End GeneratedLines.

(** X7: when no name and no specifier of a non-empty extension list holds
    a line break, the import part and the registration part of the script
    have one line per extension: split at the line breaks they give back
    the import statements, and the registration calls, of the extensions
    in order. *)
Theorem one_line_per_extension (ext : Ext.t) (exts : list Ext.t) :
  Forall
    (fun e => sep_free newline (Ext.name e) /\ sep_free newline (specifier e))
    (ext :: exts) ->
  Js.split newline (extensionImports (ext :: exts))
  = map importLine (ext :: exts)
  /\ Js.split newline (extensionRegistrations (ext :: exts))
     = map registrationLine (ext :: exts).
Proof.
  intros H. unfold extensionImports, extensionRegistrations.
  change Js.nl with (String newline "").
  split; cbn [map]; apply split_join.
  - change (Forall (sep_free newline) (map importLine (ext :: exts))).
    apply Forall_map. eapply Forall_impl; [|exact H].
    intros e [Hn Hs]. now apply importLine_newline_free.
  - change (Forall (sep_free newline) (map registrationLine (ext :: exts))).
    apply Forall_map. eapply Forall_impl; [|exact H].
    intros e [Hn Hs]. now apply registrationLine_newline_free.
Qed.

Lemma one_line_per_extension_witness :
  Forall
    (fun e => sep_free newline (Ext.name e) /\ sep_free newline (specifier e))
    [Ext.make "response-targets" None; Ext.make "foo" (Some "./local/foo")]
  /\ Js.split newline
       (extensionImports
          [Ext.make "response-targets" None;
           Ext.make "foo" (Some "./local/foo")])
     = [importLine (Ext.make "response-targets" None);
        importLine (Ext.make "foo" (Some "./local/foo"))]
  /\ Js.split newline
       (extensionRegistrations
          [Ext.make "response-targets" None;
           Ext.make "foo" (Some "./local/foo")])
     = [registrationLine (Ext.make "response-targets" None);
        registrationLine (Ext.make "foo" (Some "./local/foo"))].
Proof.
  assert (H : Forall
                (fun e => sep_free newline (Ext.name e)
                          /\ sep_free newline (specifier e))
                [Ext.make "response-targets" None;
                 Ext.make "foo" (Some "./local/foo")])
    by (repeat constructor).
  split; [exact H|].
  exact (one_line_per_extension _ _ H).
Defined.

(** X8: [path] reaches the import statements only: two extension lists
    with the same names in the same order, whatever their paths, get the
    same registration calls. *)
Theorem registrations_ignore_path (exts exts' : list Ext.t) :
  map Ext.name exts = map Ext.name exts' ->
  extensionRegistrations exts = extensionRegistrations exts'.
Proof.
  intros H. unfold extensionRegistrations. f_equal.
  revert exts' H. induction exts as [|e exts IH]; intros [|e' exts'] H;
    try discriminate H; [reflexivity|].
  cbn [map] in *. injection H as Hn Hr.
  unfold registrationLine at 1 3. rewrite Hn. f_equal. now apply IH.
Qed.

Lemma registrations_ignore_path_witness :
  map Ext.name [Ext.make "foo" None] = map Ext.name [Ext.make "foo" (Some "./local/foo")]
  /\ extensionRegistrations [Ext.make "foo" None]
     = extensionRegistrations [Ext.make "foo" (Some "./local/foo")].
Proof.
  split; [reflexivity|].
  apply (registrations_ignore_path [Ext.make "foo" None]
           [Ext.make "foo" (Some "./local/foo")]).
  reflexivity.
Defined.
